(** * u8g2_sim.py: bitmap cache, framebuffer blits and live-reload loop

    A shallow embedding of the rendering core of [u8g2_sim.py]:
    - [_LRUCache], the bounded cache of decoded bitmaps (an [OrderedDict]);
    - the framebuffer of [U8G2SimLCD] with [drawPixel], [drawBitmap1],
      the file blits and their cache keys;
    - the polling loop of [LivePythonRenderer] ([_load] and [pump]).

    Python exceptions are explicit: an operation that may raise returns
    an [option] or a sum, and the theorems show which results occur. *)

From Stdlib Require Import ZArith QArith Lia.
From stdpp Require Import gmap strings list.

Local Open Scope Z_scope.

(** ** collections.OrderedDict

    Insertion order matters here, so the dictionary is the list of its
    items, oldest first.  Keys are unique in every list the operations
    below build from the empty one. *)

Module OrderedDict.
Section Ops.
Context {K V : Type} `{EqDecision K}.

Definition t : Type := list (K * V).

(** [d[key]], [None] standing for KeyError. *)
Fixpoint getitem (k : K) (d : t) : option V :=
  match d with
  | [] => None
  | (k', v) :: tl => if decide (k' = k) then Some v else getitem k tl
  end.

(** [key in d] *)
Definition contains (k : K) (d : t) : bool :=
  match getitem k d with Some _ => true | None => false end.

Fixpoint remove (k : K) (d : t) : t :=
  match d with
  | [] => []
  | (k', v) :: tl =>
      if decide (k' = k) then remove k tl else (k', v) :: remove k tl
  end.

(** [d[key] = value]: a present key keeps its position, a new one is
    appended. *)
Fixpoint setitem (k : K) (v : V) (d : t) : t :=
  match d with
  | [] => [(k, v)]
  | (k', v') :: tl =>
      if decide (k' = k) then (k, v) :: tl else (k', v') :: setitem k v tl
  end.

(** [d.move_to_end(key)]; KeyError when the key is absent. *)
Definition move_to_end (k : K) (d : t) : option t :=
  match getitem k d with
  | Some v => Some (remove k d ++ [(k, v)])
  | None => None
  end.

Definition keys (d : t) : list K := d.*1.
End Ops.
Arguments t : clear implicits.
End OrderedDict.

(** ** class _LRUCache *)

Module LRUCache.
Section Cache.
Context {K V : Type} `{EqDecision K}.

Record _LRUCache : Type := mk {
  max_items : Z;
  _d : OrderedDict.t K V
}.

(** [__init__]: [max_items] is a Python int, on which [int] is the
    identity. *)
Definition init (max_items : Z) : _LRUCache :=
  {| max_items := Z.max 1 max_items; _d := [] |}.

(** [get]: the result pairs the returned value ([None] on a miss)
    with the cache after the call.  The outer [option] is [None] when
    an exception escapes. *)
Definition get (key : K) (c : _LRUCache) : option (option V * _LRUCache) :=
  if OrderedDict.contains key (_d c) then
    d' ← OrderedDict.move_to_end key (_d c);
    Some (OrderedDict.getitem key d', {| max_items := max_items c; _d := d' |})
  else Some (None, c).

(** The loop [while len(self._d) > self.max_items: popitem(last=False)],
    by recursion on the dictionary it shortens: each round removes the
    oldest item, and [popitem] on the empty dictionary is a KeyError. *)
Fixpoint evict (max : Z) (d : OrderedDict.t K V) : option (OrderedDict.t K V) :=
  match d with
  | [] => if Z.of_nat (length d) >? max then None else Some d
  | _ :: tl => if Z.of_nat (length d) >? max then evict max tl else Some d
  end.

Definition put (key : K) (value : V) (c : _LRUCache) : option _LRUCache :=
  let d1 := OrderedDict.setitem key value (_d c) in
  d2 ← OrderedDict.move_to_end key d1;
  d3 ← evict (max_items c) d2;
  Some {| max_items := max_items c; _d := d3 |}.

Definition clear (c : _LRUCache) : _LRUCache :=
  {| max_items := max_items c; _d := [] |}.

(** A client's operations, and a run of them from a given cache. *)
Inductive op : Type :=
| Get (key : K)
| Put (key : K) (value : V)
| Clear.

Definition step (o : op) (c : _LRUCache) : option _LRUCache :=
  match o with
  | Get k => snd <$> get k c
  | Put k v => put k v c
  | Clear => Some (clear c)
  end.

Fixpoint run (ops : list op) (c : _LRUCache) : option _LRUCache :=
  match ops with
  | [] => Some c
  | o :: rest => c' ← step o c; run rest c'
  end.

(** The entry [popitem(last=False)] would remove next. *)
Definition victim (c : _LRUCache) : option K := fst <$> head (_d c).

(** The most recently used entry. *)
Definition newest (c : _LRUCache) : option K := fst <$> last (_d c).
End Cache.
Arguments _LRUCache : clear implicits.
Arguments op : clear implicits.
End LRUCache.

(** ** Loops and exceptions

    A Python [for] loop whose body may raise: the state is threaded
    through the body, and the first [None] (an exception) ends the loop. *)

Fixpoint for_each {A S : Type} (l : list A) (body : A → S → option S)
    (s : S) : option S :=
  match l with
  | [] => Some s
  | a :: tl => s' ← body a s; for_each tl body s'
  end.

(** [range(n)]: empty when [n <= 0]. *)
Definition range (n : Z) : list Z := seqZ 0 n.

(** A raised exception: its class name, [str(e)], and whether it is an
    instance of [Exception], which is what an [except Exception] clause
    catches; [SystemExit] and [KeyboardInterrupt] are not. *)
Record Exn : Type := mkExn {
  exn_class : string;
  exn_str : string;
  exn_is_Exception : bool
}.

(** ** The parts of Pillow the simulator calls *)

Module PIL.

Definition WHITE : Z := 255.
Definition BLACK : Z := 0.

(** The mode "L" image behind the framebuffer.  A pixel that was never
    written holds the fill colour of [Image.new], which is [BLACK]. *)
Record Image : Type := mkImage {
  size : Z * Z;
  px : gmap (Z * Z) Z
}.

Definition new (size : Z * Z) : Image := mkImage size ∅.

Definition inside (im : Image) (xy : Z * Z) : bool :=
  (0 <=? xy.1) && (xy.1 <? (size im).1) && (0 <=? xy.2) && (xy.2 <? (size im).2).

Definition pixel (im : Image) (xy : Z * Z) : Z := default BLACK (px im !! xy).

(** [im.putpixel(xy, value)].  The simulator calls it only under its own
    range test; here any coordinate outside the image is an error, so a
    result [Some _] shows that the test was enough. *)
Definition putpixel (im : Image) (xy : Z * Z) (value : Z) : option Image :=
  if inside im xy then Some (mkImage (size im) (<[xy := value]> (px im)))
  else None.

Inductive Mode : Type :=
| Mode1
| ModeL
| ModeOther (name : string).

(** Images of bitmap files are of Pillow's own making; the simulator
    uses them through these calls only.  [Image.open] reads the header
    and leaves the pixel data for later, so every call that needs the
    pixels may raise (OSError on a file that is cut short): [None]
    stands for that exception.  [load] gives the pixel access object of
    [img.load()], read as [px[i, j]]. *)
Class Bitmap (Img : Type) : Type := {
  mode : Img → Mode;                     (* img.mode *)
  convert : Mode → Img → option Img;     (* img.convert(mode) *)
  point : (Z → Z) → Img → option Img;    (* img.point(f) *)
  invert : Img → option Img;             (* ImageOps.invert(img) *)
  img_size : Img → Z * Z;                (* img.size *)
  load : Img → option (Z * Z → Z)        (* img.load() *)
}.

End PIL.

(** ** Python numbers and byte strings *)

(** [st_mtime] is a float; a finite float is the rational it denotes,
    [==] on floats is equality of these rationals, and [int] truncates
    toward zero. *)
Definition py_int (q : Q) : Z := Z.quot (Qnum q) (Z.pos (Qden q)).

Definition py_float_eq (a b : Q) : bool := Qeq_bool a b.

(** [buf[i]] on [bytes]: a negative index counts from the end, and an
    index outside the string is an IndexError. *)
Definition bytes_getitem (buf : list Z) (i : Z) : option Z :=
  let n := Z.of_nat (length buf) in
  let j := if i <? 0 then i + n else i in
  if (0 <=? j) && (j <? n) then buf !! Z.to_nat j else None.

(** ** class U8G2SimLCD *)

Module U8G2SimLCD.

(** The cache key [(abspath, int(st.st_mtime), bool(invert))]; the
    middle component is [None] in the fallback key. *)
Definition Key : Type := string * option Z * bool.

(** What the operating system and [Image.open] answer during one call.
    [None] and [inl] stand for a raised exception. *)
Record OS (Img : Type) : Type := mkOS {
  os_path_abspath : string → option string;
  os_stat : string → option Q;
  Image_open : string → Exn + Img
}.
Arguments os_path_abspath {Img}.
Arguments os_stat {Img}.
Arguments Image_open {Img}.

Section LCD.
Context {Img : Type} `{PIL.Bitmap Img}.

(** The fields the drawing and blitting methods use. *)
Record U8G2SimLCD : Type := mkLCD {
  width : Z;
  height : Z;
  img : PIL.Image;
  draw_color : Z;
  _bmp_cache : LRUCache._LRUCache Key Img
}.

Definition set_img (lcd : U8G2SimLCD) (im : PIL.Image) : U8G2SimLCD :=
  mkLCD (width lcd) (height lcd) im (draw_color lcd) (_bmp_cache lcd).

Definition set_bmp_cache (lcd : U8G2SimLCD) (c : LRUCache._LRUCache Key Img)
  : U8G2SimLCD :=
  mkLCD (width lcd) (height lcd) (img lcd) (draw_color lcd) c.

(** [__init__]: a black framebuffer, white draw colour, empty cache. *)
Definition init (width height cache_size : Z) : U8G2SimLCD :=
  mkLCD width height (PIL.new (width, height)) PIL.WHITE
        (LRUCache.init cache_size).

Definition setDrawColor (color : Z) (lcd : U8G2SimLCD) : U8G2SimLCD :=
  mkLCD (width lcd) (height lcd) (img lcd)
        (if bool_decide (color ≠ 0) then PIL.WHITE else PIL.BLACK)
        (_bmp_cache lcd).

(** The test [0 <= x < self.width and 0 <= y < self.height]. *)
Definition in_range (lcd : U8G2SimLCD) (x y : Z) : bool :=
  (0 <=? x) && (x <? width lcd) && (0 <=? y) && (y <? height lcd).

(** [self.img.putpixel((x, y), color)] *)
Definition img_putpixel (x y color : Z) (lcd : U8G2SimLCD) : option U8G2SimLCD :=
  im ← PIL.putpixel (img lcd) (x, y) color; Some (set_img lcd im).

Definition drawPixel (x y : Z) (lcd : U8G2SimLCD) : option U8G2SimLCD :=
  if in_range lcd x y then img_putpixel x y (draw_color lcd) lcd
  else Some lcd.

(** *** Bitmap blitting (bytes) *)

(** The bit of column [col] in row [row], after the optional flip:
    [(buf[b_i] >> (7 - col % 8)) & 1 if b_i < len(buf) else 0]. *)
Definition bitmap1_bit (buf : list Z) (stride : Z) (invert : bool)
    (row col : Z) : option Z :=
  let row_off := row * stride in
  let b_i := row_off + col `div` 8 in
  bit ← (if b_i <? Z.of_nat (length buf)
         then b ← bytes_getitem buf b_i;
              Some (Z.land (Z.shiftr b (7 - col `mod` 8)) 1)
         else Some 0);
  Some (if invert then Z.lxor bit 1 else bit).

(** The body of the inner loop of [drawBitmap1]. *)
Definition drawBitmap1_cell (x y : Z) (buf : list Z) (stride : Z)
    (invert : bool) (on_color : Z) (row col : Z) (lcd : U8G2SimLCD)
  : option U8G2SimLCD :=
  bit ← bitmap1_bit buf stride invert row col;
  if bool_decide (bit ≠ 0) then
    if in_range lcd (x + col) (y + row)
    then img_putpixel (x + col) (y + row) on_color lcd
    else Some lcd
  else Some lcd.

(** [data] is a sequence of ints; [int(b) & 0xFF] is the identity on
    the elements of a [bytes] or [bytearray], which is used as it is. *)
Definition drawBitmap1 (x y w h : Z) (data : list Z) (stride : option Z)
    (invert : bool) (lcd : U8G2SimLCD) : option U8G2SimLCD :=
  let stride := match stride with None => (w + 7) `div` 8 | Some s => s end in
  let buf := (λ b, Z.land b 255) <$> data in
  let on_color := draw_color lcd in
  for_each (range h) (λ row,
    for_each (range w) (drawBitmap1_cell x y buf stride invert on_color row))
    lcd.

Definition drawXBM (x y w h : Z) (data : list Z) (lcd : U8G2SimLCD)
  : option U8G2SimLCD :=
  drawBitmap1 x y w h data (Some ((w + 7) `div` 8)) false lcd.

(** *** File-based blitting with cache *)

Definition cache_key (os : OS Img) (path : string) (invert : bool) : Key :=
  match abspath ← os_path_abspath os path;
        st_mtime ← os_stat os abspath;
        Some (abspath, Some (py_int st_mtime), invert) with
  | Some key => key
  | None => (path, None, invert)
  end.

(** [lambda p: 255 if p >= 128 else 0] *)
Definition threshold (p : Z) : Z := if 128 <=? p then 255 else 0.

Definition mode_in_1_L (m : PIL.Mode) : bool :=
  match m with PIL.Mode1 | PIL.ModeL => true | PIL.ModeOther _ => false end.

Definition mode_is_L (m : PIL.Mode) : bool :=
  match m with PIL.ModeL => true | _ => false end.

(** The conversions between [Image.open] and [self._bmp_cache.put];
    they are outside every [try], so an exception of theirs leaves
    [_load_image_mono_cached]. *)
Definition to_mono (img0 : Img) (invert : bool) : option Img :=
  img1 ← (if mode_in_1_L (PIL.mode img0) then Some img0
          else PIL.convert PIL.ModeL img0);
  img2 ← (if mode_is_L (PIL.mode img1)
          then p ← PIL.point threshold img1; PIL.convert PIL.Mode1 p
          else Some img1);
  if invert
  then l ← PIL.convert PIL.ModeL img2; i ← PIL.invert l; PIL.convert PIL.Mode1 i
  else Some img2.

(** [_load_image_mono_cached] returns the image (or [None]), and the
    model adds the simulator after the call and the lines printed.  The
    outer [option] is [None] when an exception leaves the method: one
    of the cache, one that [except Exception] does not catch, or one of
    the conversions. *)
Definition _load_image_mono_cached (os : OS Img) (path : string)
    (invert : bool) (lcd : U8G2SimLCD)
  : option (option Img * U8G2SimLCD * list string) :=
  let key := cache_key os path invert in
  r ← LRUCache.get key (_bmp_cache lcd);
  let lcd := set_bmp_cache lcd r.2 in
  match r.1 with
  | Some cached => Some (Some cached, lcd, [])
  | None =>
      match Image_open os path with
      | inl e =>
          if exn_is_Exception e
          then Some (None, lcd, ["[BMP] open error: " +:+ exn_str e])
          else None
      | inr img0 =>
          im ← to_mono img0 invert;
          c ← LRUCache.put key im (_bmp_cache lcd);
          Some (Some im, set_bmp_cache lcd c, [])
      end
  end.

(** The body of the inner loop of [_blit_PIL_image_mono]; [px] is the
    pixel access object. *)
Definition _blit_cell (px : Z * Z → Z) (x y on_color : Z) (j i : Z)
    (lcd : U8G2SimLCD) : option U8G2SimLCD :=
  let v := if bool_decide (px (i, j) ≠ 0) then 1 else 0 in
  if bool_decide (v ≠ 0) && in_range lcd (x + i) (y + j)
  then img_putpixel (x + i) (y + j) on_color lcd
  else Some lcd.

Definition _blit_PIL_image_mono (pil_img : Img) (x y : Z) (lcd : U8G2SimLCD)
  : option U8G2SimLCD :=
  let '(w, h) := PIL.img_size pil_img in
  px ← PIL.load pil_img;
  let on_color := draw_color lcd in
  for_each (range h) (λ j,
    for_each (range w) (_blit_cell px x y on_color j)) lcd.

Definition drawXBMfile (os : OS Img) (path : string) (x y : Z) (invert : bool)
    (lcd : U8G2SimLCD) : option (U8G2SimLCD * list string) :=
  r ← _load_image_mono_cached os path invert lcd;
  match r.1.1 with
  | Some im => lcd' ← _blit_PIL_image_mono im x y r.1.2; Some (lcd', r.2)
  | None => Some (r.1.2, r.2)
  end.

Definition drawPBMfile (os : OS Img) (path : string) (x y : Z) (invert : bool)
    (lcd : U8G2SimLCD) : option (U8G2SimLCD * list string) :=
  r ← _load_image_mono_cached os path invert lcd;
  match r.1.1 with
  | Some im => lcd' ← _blit_PIL_image_mono im x y r.1.2; Some (lcd', r.2)
  | None => Some (r.1.2, r.2)
  end.

Definition clearBitmapCache (lcd : U8G2SimLCD) : U8G2SimLCD * list string :=
  (set_bmp_cache lcd (LRUCache.clear (_bmp_cache lcd)),
   ["[SIM] Bitmap cache cleared"]).

(** The framebuffer has the size the simulator was built with, and the
    cache the capacity its constructor gives it. *)
Definition wf (lcd : U8G2SimLCD) : Prop :=
  PIL.size (img lcd) = (width lcd, height lcd) ∧
  1 ≤ LRUCache.max_items (_bmp_cache lcd).

End LCD.
Arguments U8G2SimLCD : clear implicits.
End U8G2SimLCD.

(** ** class LivePythonRenderer *)

Module LivePythonRenderer.

(** An object bound in the namespace of the watched file: a callable,
    named by a number, or anything else. *)
Inductive Value : Type :=
| Callable (f : nat)
| Other.

Abbreviation Env := (gmap string Value).

Inductive StatResult : Type :=
| StatOk (st_mtime : Q)
| FileNotFoundError
| StatRaises (e : Exn).

(** What one tick observes: the answer of [os.stat(self.path)], of
    reading the file, of compiling and executing its text in a fresh
    namespace, and of calling a callable on the simulator.  The callable
    runs with the namespace of its file as its globals: [call w f env]
    gives that namespace as the call leaves it and the exception the
    call raises, if any. *)
Record World : Type := mkWorld {
  stat : StatResult;
  read : Exn + string;
  exec : string → Exn + Env;
  call : nat → Env → Env * option Exn
}.

(** The texts [_load] passes to [_show_message]. *)
Inductive Message : Type :=
| Waiting            (* "Waiting for <basename> ..." *)
| ReadError (e : Exn) (* "Read error: <e>" *)
| NoEntryPoint.      (* "No draw(lcd) or demo_draw(lcd) found" *)

(** The calls a tick makes, in order. *)
Inductive event : Type :=
| ShowMessage (m : Message)          (* self._show_message(m) *)
| ShowError (stage : string) (e : Exn) (* self._show_error(stage, e) *)
| CompileExec (code : string)        (* compile(code, ...) and exec(...) *)
| Call (f : nat).                    (* func(self.lcd) *)

Record state : Type := mkState {
  _last_mtime : option Q;
  _module_env : option Env;
  _func_name : option string
}.

(** [__init__] *)
Definition init : state := mkState None None None.

(** The loop [for name in ("draw", "demo_draw")] with its [break]. *)
Fixpoint find_entry (names : list string) (env : Env) : option (string * nat) :=
  match names with
  | [] => None
  | name :: rest =>
      match env !! name with
      | Some (Callable f) => Some (name, f)
      | _ => find_entry rest env
      end
  end.

Definition unchanged (s : state) (st_mtime : Q) : bool :=
  match _last_mtime s with
  | Some last => py_float_eq st_mtime last
  | None => false
  end.

(** [_load]: the state after the call, the calls made, and the exception
    that escapes, if any.  Reading and executing the file are under
    [except Exception]: any other exception escapes, after
    [_last_mtime] was set. *)
Definition _load (w : World) (s : state) : state * list event * option Exn :=
  match stat w with
  | FileNotFoundError => (s, [ShowMessage Waiting], None)
  | StatRaises e => (s, [], Some e)
  | StatOk st_mtime =>
      if unchanged s st_mtime then (s, [], None)
      else
        let s1 := mkState (Some st_mtime) (_module_env s) (_func_name s) in
        match read w with
        | inl e =>
            if exn_is_Exception e
            then (s1, [ShowMessage (ReadError e)], None)
            else (s1, [], Some e)
        | inr code =>
            match exec w code with
            | inl e =>
                if exn_is_Exception e
                then (s1, [CompileExec code; ShowError "exec" e], None)
                else (s1, [CompileExec code], Some e)
            | inr env =>
                match find_entry ["draw"; "demo_draw"] env with
                | Some (name, _) =>
                    (mkState (Some st_mtime) (Some env) (Some name),
                     [CompileExec code], None)
                | None =>
                    (mkState (Some st_mtime) None (_func_name s),
                     [CompileExec code; ShowMessage NoEntryPoint], None)
                end
            end
        end
  end.

(** Truth value of [self._module_env]: a dictionary that is not empty. *)
Definition truthy (e : option Env) : bool :=
  match e with
  | Some env => bool_decide (env ≠ ∅)
  | None => false
  end.

(** [self._module_env.get(self._func_name)], when it is callable. *)
Definition bound_func (s : state) : option nat :=
  match env ← _module_env s; name ← _func_name s; env !! name with
  | Some (Callable f) => Some f
  | _ => None
  end.

(** The [try] around [func(self.lcd)], after the calls [shown].  The
    dictionary the call has as its globals is the object
    [self._module_env] holds, so what the call binds or deletes in it is
    what the next tick looks the entry point up in.  Only an exception of
    class [Exception] is caught and shown; any other escapes. *)
Definition invoke (w : World) (f : nat) (env : Env) (s : state)
    (shown : list event) : state * list event * option Exn :=
  let r := call w f env in
  let s' := mkState (_last_mtime s) (Some r.1) (_func_name s) in
  match r.2 with
  | None => (s', shown ++ [Call f], None)
  | Some e =>
      if exn_is_Exception e
      then (s', shown ++ [Call f; ShowError "draw" e], None)
      else (s', shown ++ [Call f], Some e)
  end.

(** One run of [pump]; its [finally] clause schedules the next one
    whatever happened, and the last component is the exception that
    leaves [pump], if any. *)
Definition pump (w : World) (s : state) : state * list event * option Exn :=
  let r := _load w s in
  match r.2 with
  | Some e => r
  | None =>
      if truthy (_module_env r.1.1) then
        match bound_func r.1.1, _module_env r.1.1 with
        | Some f, Some env => invoke w f env r.1.1 r.1.2
        | _, _ => r
        end
      else r
  end.

(** The calls of each tick of a run. *)
Fixpoint ticks (ws : list World) (s : state) : list (list event) :=
  match ws with
  | [] => []
  | w :: rest => (pump w s).1.2 :: ticks rest (pump w s).1.1
  end.

End LivePythonRenderer.

(** ** A concrete bitmap type

    Grey-level rasters, rows of values 0..255, enough to run the
    simulator on small inputs.  A raster whose file is cut short has a
    header (mode and size) and pixel data that cannot be decoded. *)

Module Raster.

Record t : Type := mk {
  r_mode : PIL.Mode;
  r_size : Z * Z;
  r_rows : list (list Z);
  r_truncated : bool
}.

(** Reading the pixel data, which every operation below starts with. *)
Definition decoded (r : t) : option t :=
  if r_truncated r then None else Some r.

Definition map_pixels (f : Z → Z) (r : t) : t :=
  mk (r_mode r) (r_size r) (List.map (List.map f) (r_rows r)) (r_truncated r).

Definition get (r : t) (ij : Z * Z) : Z :=
  default 0 (row ← r_rows r !! Z.to_nat ij.2; row !! Z.to_nat ij.1).

#[global] Instance bitmap : PIL.Bitmap t := {|
  PIL.mode := r_mode;
  PIL.convert m r := r' ← decoded r; Some (mk m (r_size r') (r_rows r') false);
  PIL.point f r := r' ← decoded r; Some (map_pixels f r');
  PIL.invert r := r' ← decoded r; Some (map_pixels (λ p, 255 - p) r');
  PIL.img_size := r_size;
  PIL.load r := r' ← decoded r; Some (get r')
|}.

End Raster.

(** ** Predicates of the statements below *)

Section CachePredicates.
Context {K V : Type} `{EqDecision K}.

(** The dictionary of [put] before its eviction loop: the key's old item
    is gone and the new one is the newest. *)
Definition inserted (k : K) (v : V) (d : OrderedDict.t K V) : OrderedDict.t K V :=
  OrderedDict.remove k d ++ [(k, v)].

(** What holds of every cache built by the constructor and the three
    methods. *)
Definition cache_inv (c : LRUCache._LRUCache K V) : Prop :=
  1 ≤ LRUCache.max_items c ∧
  Z.of_nat (length (LRUCache._d c)) ≤ LRUCache.max_items c ∧
  NoDup (OrderedDict.keys (LRUCache._d c)).

(** The last part of the eviction claim as the specification words it:
    after a hit on [k] in a cache of capacity at least 1, [k] is not the
    entry the next eviction removes. *)
Definition hit_never_next_victim : Prop :=
  ∀ (n : Z) (ops : list (LRUCache.op K V)) (c c1 : LRUCache._LRUCache K V)
    (k : K) (v : V),
    1 ≤ n →
    LRUCache.run ops (LRUCache.init n) = Some c →
    LRUCache.get k c = Some (Some v, c1) →
    LRUCache.victim c1 ≠ Some k.
End CachePredicates.

Section BlitPredicates.
Context {Img : Type} `{PIL.Bitmap Img}.
Implicit Types lcd : U8G2SimLCD.U8G2SimLCD Img.

(** Everything but the pixels is as before. *)
Definition frame lcd lcd' : Prop :=
  U8G2SimLCD.width lcd' = U8G2SimLCD.width lcd ∧
  U8G2SimLCD.height lcd' = U8G2SimLCD.height lcd ∧
  U8G2SimLCD.draw_color lcd' = U8G2SimLCD.draw_color lcd ∧
  U8G2SimLCD._bmp_cache lcd' = U8G2SimLCD._bmp_cache lcd ∧
  PIL.size (U8G2SimLCD.img lcd') = PIL.size (U8G2SimLCD.img lcd).

(** [lcd'] is [lcd] with exactly the pixels of [lit] written, each with
    [color]; every other cell of the pixel store is as it was. *)
Definition plotted (lit : Z * Z → Prop) (color : Z) lcd lcd' : Prop :=
  frame lcd lcd' ∧
  ∀ p, (PIL.px (U8G2SimLCD.img lcd') !! p = Some color ∧ lit p) ∨
       (PIL.px (U8G2SimLCD.img lcd') !! p = PIL.px (U8G2SimLCD.img lcd) !! p ∧
        ¬ lit p).

(** Bit [7 - (c mod 8)] of the byte at index [r * stride + c / 8], and
    0 when that index is past the end of [data]. *)
Definition packed_bit (data : list Z) (stride r c : Z) : bool :=
  match data !! Z.to_nat (r * stride + c `div` 8) with
  | Some b => Z.testbit b (7 - c `mod` 8)
  | None => false
  end.

(** The pixels the packed blit writes: a bit that is 1 after the
    optional flip, at a destination inside the framebuffer. *)
Definition bitmap1_lit lcd (x y w h : Z) (data : list Z) (invert : bool)
    (p : Z * Z) : Prop :=
  ∃ r c, 0 ≤ r < h ∧ 0 ≤ c < w ∧ p = (x + c, y + r) ∧
         xorb (packed_bit data ((w + 7) `div` 8) r c) invert = true ∧
         U8G2SimLCD.in_range lcd (x + c) (y + r) = true.

(** The set the specification gives for the packed blit: the byte index
    is within [data] and the bit is 1 after the optional flip. *)
Definition bitmap1_lit_claimed (x y w h : Z) (data : list Z) (invert : bool)
    (p : Z * Z) : Prop :=
  ∃ r c, 0 ≤ r < h ∧ 0 ≤ c < w ∧ p = (x + c, y + r) ∧
         r * ((w + 7) `div` 8) + c `div` 8 < Z.of_nat (length data) ∧
         xorb (packed_bit data ((w + 7) `div` 8) r c) invert = true.

(** The pixels the image blit writes, [px] being the pixel access
    object of the image. *)
Definition image_lit lcd (pil_img : Img) (px : Z * Z → Z) (x y : Z)
    (p : Z * Z) : Prop :=
  ∃ j i, 0 ≤ j < (PIL.img_size pil_img).2 ∧ 0 ≤ i < (PIL.img_size pil_img).1 ∧
         p = (x + i, y + j) ∧ px (i, j) ≠ 0 ∧
         U8G2SimLCD.in_range lcd (x + i) (y + j) = true.
End BlitPredicates.

(** ** Inputs of the examples *)

(** The simulator of the demo: 128 by 64 pixels, 64 cache entries. *)
Definition lcd0 : U8G2SimLCD.U8G2SimLCD Raster.t := U8G2SimLCD.init 128 64 64.

(** [os.path.abspath] or [os.stat] raises for this path. *)
Definition cannot_stat {Img : Type} (os : U8G2SimLCD.OS Img) (path : string) : Prop :=
  (abspath ← U8G2SimLCD.os_path_abspath os path; U8G2SimLCD.os_stat os abspath) = None.

(** Two one-row bitmaps, and the answers of the operating system for a
    file the simulator cannot stat and for a file last modified at a
    given time. *)
Definition icon : Raster.t := Raster.mk PIL.Mode1 (2, 1) [[255; 0]] false.
Definition icon2 : Raster.t := Raster.mk PIL.Mode1 (2, 1) [[0; 255]] false.

(** Two files cut short after the header: [Image.open] succeeds on
    both, and the pixel data cannot be decoded. *)
Definition cut_grey : Raster.t := Raster.mk PIL.ModeL (2, 1) [] true.
Definition cut_mono : Raster.t := Raster.mk PIL.Mode1 (2, 1) [] true.

Definition os_no_stat (opened : Exn + Raster.t) : U8G2SimLCD.OS Raster.t :=
  U8G2SimLCD.mkOS _ (λ p, Some ("/home/u/" +:+ p)) (λ _, None) (λ _, opened).

Definition os_at (st_mtime : Q) (opened : Exn + Raster.t) : U8G2SimLCD.OS Raster.t :=
  U8G2SimLCD.mkOS _ (λ p, Some ("/home/u/" +:+ p)) (λ _, Some st_mtime) (λ _, opened).

Definition EACCES : Exn :=
  mkExn "PermissionError" "[Errno 13] Permission denied" true.

(** A watched file and its edits. *)
Module Demo.
Import LivePythonRenderer.

Definition good_code : string := "def draw(lcd): lcd.drawBox(0, 0, 8, 8)".
Definition bad_code : string := "def draw(lcd: lcd.drawBox(0, 0, 8, 8)".

Definition SyntaxError : Exn := mkExn "SyntaxError" "invalid syntax" true.
Definition ZeroDivisionError : Exn :=
  mkExn "ZeroDivisionError" "division by zero" true.

(** The namespace after executing the first text. *)
Definition demo_env : Env := <["draw" := Callable 0]> (<["__name__" := Other]> ∅).

(** Compiling and executing the two texts: the first binds [draw] to
    the callable 0, the second does not compile. *)
Definition exec_demo (code : string) : Exn + Env :=
  if decide (code = good_code) then inr demo_env else inl SyntaxError.

(** The file as first saved, at time 100; [raises] says whether the
    entry point faults when called. *)
Definition saved (raises : bool) : World :=
  mkWorld (StatOk 100) (inr good_code) exec_demo
          (λ _ env, (env, if raises then Some ZeroDivisionError else None)).

(** The file after an edit at time 107 that broke its syntax. *)
Definition broken : World :=
  mkWorld (StatOk 107) (inr bad_code) exec_demo (λ _ env, (env, None)).


End Demo.

(** * Facts

    ** The ordered dictionary and the cache *)

Section OrderedDictFacts.
Context {K V : Type} `{EqDecision K}.
Implicit Types (d : OrderedDict.t K V) (k : K) (v : V).

Lemma getitem_app k d1 d2 :
  OrderedDict.getitem k (d1 ++ d2) =
  match OrderedDict.getitem k d1 with
  | Some v => Some v
  | None => OrderedDict.getitem k d2
  end.
Proof.
  induction d1 as [|[k' v'] d1 IH]; simpl; [done|].
  destruct (decide (k' = k)); [done|apply IH].
Qed.

Lemma getitem_remove_eq k d : OrderedDict.getitem k (OrderedDict.remove k d) = None.
Proof.
  induction d as [|[k' v'] d IH]; simpl; [done|].
  destruct (decide (k' = k)) as [->|Hne]; [done|].
  simpl. by rewrite decide_False.
Qed.

Lemma getitem_remove_ne k k' d :
  k ≠ k' → OrderedDict.getitem k' (OrderedDict.remove k d) = OrderedDict.getitem k' d.
Proof.
  intros Hne. induction d as [|[k0 v0] d IH]; simpl; [done|].
  destruct (decide (k0 = k)) as [->|Hk0].
  - by rewrite decide_False.
  - simpl. destruct (decide (k0 = k')); [done|apply IH].
Qed.

Lemma remove_setitem k v d :
  OrderedDict.remove k (OrderedDict.setitem k v d) = OrderedDict.remove k d.
Proof.
  induction d as [|[k' v'] d IH]; simpl.
  - by rewrite decide_True.
  - destruct (decide (k' = k)) as [->|Hne]; simpl.
    + by rewrite decide_True.
    + rewrite decide_False by done. by rewrite IH.
Qed.

Lemma getitem_setitem_eq k v d :
  OrderedDict.getitem k (OrderedDict.setitem k v d) = Some v.
Proof.
  induction d as [|[k' v'] d IH]; simpl.
  - by rewrite decide_True.
  - destruct (decide (k' = k)) as [->|Hne]; simpl.
    + by rewrite decide_True.
    + by rewrite decide_False.
Qed.

Lemma length_remove_le k d : (length (OrderedDict.remove k d) ≤ length d)%nat.
Proof.
  induction d as [|[k' v'] d IH]; simpl; [lia|].
  destruct (decide (k' = k)); simpl; lia.
Qed.

Lemma length_remove_lt k v d :
  OrderedDict.getitem k d = Some v →
  (length (OrderedDict.remove k d) < length d)%nat.
Proof.
  induction d as [|[k' v'] d IH]; simpl; [done|].
  destruct (decide (k' = k)); simpl; intros Hg.
  - pose proof (length_remove_le k d). lia.
  - specialize (IH Hg). lia.
Qed.

Lemma remove_absent k d :
  OrderedDict.getitem k d = None → OrderedDict.remove k d = d.
Proof.
  induction d as [|[k' v'] d IH]; simpl; [done|].
  destruct (decide (k' = k)); [done|]. intros Hg. by rewrite IH.
Qed.

Lemma keys_remove k d :
  OrderedDict.keys (OrderedDict.remove k d) = filter (λ k', k' ≠ k) (OrderedDict.keys d).
Proof.
  unfold OrderedDict.keys.
  induction d as [|[k' v'] d IH]; [done|].
  rewrite fmap_cons, filter_cons. cbn [OrderedDict.remove fst].
  destruct (decide (k' = k)) as [->|Hne].
  - by rewrite decide_False by naive_solver.
  - rewrite decide_True by done. rewrite fmap_cons. cbn [fst]. by f_equal.
Qed.

Lemma getitem_None_keys k d :
  OrderedDict.getitem k d = None ↔ k ∉ OrderedDict.keys d.
Proof.
  unfold OrderedDict.keys.
  induction d as [|[k' v'] d IH]; simpl.
  - split; [intros _; apply not_elem_of_nil|done].
  - rewrite not_elem_of_cons. destruct (decide (k' = k)) as [->|Hne].
    + split; [done|]. intros [? _]; done.
    + rewrite IH. split; [by intros ?; split; [apply not_eq_sym|]|by intros [_ ?]].
Qed.

Lemma NoDup_keys_move k v d :
  NoDup (OrderedDict.keys d) →
  NoDup (OrderedDict.keys (OrderedDict.remove k d ++ [(k, v)])).
Proof.
  intros Hnd. unfold OrderedDict.keys. rewrite fmap_app. simpl.
  apply NoDup_app. split_and!.
  - fold (OrderedDict.keys (OrderedDict.remove k d)). rewrite keys_remove.
    by apply NoDup_filter.
  - intros x Hx Hx'. apply list_elem_of_singleton in Hx' as ->.
    fold (OrderedDict.keys (OrderedDict.remove k d)) in Hx.
    apply getitem_None_keys in Hx; [done|]. apply getitem_remove_eq.
  - apply NoDup_singleton.
Qed.

Lemma getitem_drop_None k d n :
  OrderedDict.getitem k d = None → OrderedDict.getitem k (drop n d) = None.
Proof.
  revert n. induction d as [|[k' v'] d IH]; intros [|n]; simpl; try done.
  destruct (decide (k' = k)); [done|]. apply IH.
Qed.

Lemma NoDup_keys_drop d n :
  NoDup (OrderedDict.keys d) → NoDup (OrderedDict.keys (drop n d)).
Proof.
  unfold OrderedDict.keys. rewrite fmap_drop.
  intros Hnd. eapply sublist_NoDup; [exact Hnd|apply sublist_drop].
Qed.
End OrderedDictFacts.

Section CacheFacts.
Context {K V : Type} `{EqDecision K}.
Implicit Types (c : LRUCache._LRUCache K V) (d : OrderedDict.t K V) (k : K) (v : V).

Lemma evict_spec (max : Z) d :
  0 ≤ max →
  LRUCache.evict max d = Some (drop (length d - Z.to_nat max) d).
Proof.
  intros Hmax. induction d as [|a d IH]; cbn [LRUCache.evict].
  - destruct (Z.gtb_spec (Z.of_nat (length (@nil (K * V)))) max) as [Hgt|Hle];
      [simpl in Hgt; lia|done].
  - destruct (Z.gtb_spec (Z.of_nat (length (a :: d))) max) as [Hgt|Hle];
      rewrite length_cons in *.
    + rewrite IH. f_equal.
      replace (S (length d) - Z.to_nat max)%nat
        with (S (length d - Z.to_nat max)) by lia.
      done.
    + replace (S (length d) - Z.to_nat max)%nat with 0%nat by lia. done.
Qed.

Lemma get_spec k c :
  LRUCache.get k c =
  Some (OrderedDict.getitem k (LRUCache._d c),
        match OrderedDict.getitem k (LRUCache._d c) with
        | Some v => LRUCache.mk (LRUCache.max_items c) (inserted k v (LRUCache._d c))
        | None => c
        end).
Proof.
  unfold LRUCache.get, OrderedDict.contains, OrderedDict.move_to_end, inserted.
  destruct (OrderedDict.getitem k (LRUCache._d c)) as [v|] eqn:Hg; simpl; [|done].
  rewrite getitem_app, getitem_remove_eq. simpl. by rewrite decide_True.
Qed.

Lemma put_spec k v c :
  0 ≤ LRUCache.max_items c →
  LRUCache.put k v c =
  Some (LRUCache.mk (LRUCache.max_items c)
          (drop (length (inserted k v (LRUCache._d c)) - Z.to_nat (LRUCache.max_items c))
                (inserted k v (LRUCache._d c)))).
Proof.
  intros Hmax. unfold LRUCache.put, OrderedDict.move_to_end, inserted.
  rewrite getitem_setitem_eq, remove_setitem. simpl.
  rewrite evict_spec by done. done.
Qed.

Lemma getitem_put k v c c' :
  1 ≤ LRUCache.max_items c →
  LRUCache.put k v c = Some c' →
  OrderedDict.getitem k (LRUCache._d c') = Some v.
Proof.
  intros Hmax. rewrite put_spec by lia. intros [= <-]. simpl.
  unfold inserted. rewrite length_app. simpl.
  rewrite drop_app_le by lia.
  rewrite getitem_app, getitem_drop_None by apply getitem_remove_eq.
  simpl. by rewrite decide_True.
Qed.

Lemma cache_inv_init (n : Z) : cache_inv (LRUCache.init (K:=K) (V:=V) n).
Proof. unfold cache_inv, LRUCache.init; simpl. split_and!; [lia|lia|constructor]. Qed.

Lemma cache_inv_step (o : LRUCache.op K V) c :
  cache_inv c →
  ∃ c', LRUCache.step o c = Some c' ∧ cache_inv c' ∧
        LRUCache.max_items c' = LRUCache.max_items c.
Proof.
  intros (Hmax & Hlen & Hnd). destruct o as [k|k v|]; simpl.
  - rewrite get_spec. simpl.
    destruct (OrderedDict.getitem k (LRUCache._d c)) as [v|] eqn:Hg.
    + eexists; split; [done|]. split; [|done]. unfold cache_inv; simpl. split_and!; [done| |].
      * unfold inserted. rewrite length_app. simpl.
        pose proof (length_remove_lt _ _ _ Hg). lia.
      * by apply NoDup_keys_move.
    + eexists; split; [done|]. by split.
  - rewrite put_spec by lia. eexists; split; [done|]. split; [|done].
    unfold cache_inv; simpl. split_and!; [done| |].
    + rewrite length_drop. lia.
    + apply NoDup_keys_drop. by apply NoDup_keys_move.
  - eexists; split; [done|]. split; [|done].
    unfold cache_inv; simpl. split_and!; [done|lia|constructor].
Qed.

Lemma cache_inv_run (ops : list (LRUCache.op K V)) c :
  cache_inv c →
  ∃ c', LRUCache.run ops c = Some c' ∧ cache_inv c' ∧
        LRUCache.max_items c' = LRUCache.max_items c.
Proof.
  revert c. induction ops as [|o ops IH]; intros c Hinv; simpl.
  - by exists c.
  - destruct (cache_inv_step o c Hinv) as (c1 & -> & Hinv1 & Hm1). simpl.
    destruct (IH c1 Hinv1) as (c2 & Hrun & Hinv2 & Hm2).
    exists c2. split_and!; [done|done|congruence].
Qed.
End CacheFacts.



Section CacheClaims.
Context {K V : Type} `{EqDecision K}.
Implicit Types (c : LRUCache._LRUCache K V) (d : OrderedDict.t K V) (k : K) (v : V).

Lemma remove_app k d1 d2 :
  OrderedDict.remove k (d1 ++ d2) = OrderedDict.remove k d1 ++ OrderedDict.remove k d2.
Proof.
  induction d1 as [|[k' v'] d1 IH]; simpl; [done|].
  destruct (decide (k' = k)); [done|]. simpl. by rewrite IH.
Qed.

Lemma put_evicts_oldest k v c :
  cache_inv c →
  ∃ c' evicted,
    LRUCache.put k v c = Some c' ∧
    inserted k v (LRUCache._d c) = evicted ++ LRUCache._d c' ∧
    (length evicted ≤ 1)%nat ∧
    (LRUCache.max_items c < Z.of_nat (length (inserted k v (LRUCache._d c))) →
     Z.of_nat (length (LRUCache._d c')) = LRUCache.max_items c) ∧
    (Z.of_nat (length (inserted k v (LRUCache._d c))) ≤ LRUCache.max_items c →
     evicted = []).
Proof.
  intros (Hmax & Hlen & Hnd). rewrite put_spec by lia.
  set (d2 := inserted k v (LRUCache._d c)).
  set (m := (length d2 - Z.to_nat (LRUCache.max_items c))%nat).
  assert (Hd2 : (length d2 ≤ S (length (LRUCache._d c)))%nat).
  { unfold d2, inserted. rewrite length_app. simpl.
    pose proof (length_remove_le k (LRUCache._d c)). lia. }
  exists (LRUCache.mk (LRUCache.max_items c) (drop m d2)), (take m d2).
  simpl. split_and!.
  - done.
  - by rewrite take_drop.
  - rewrite length_take. lia.
  - intros Hgt. rewrite length_drop. lia.
  - intros Hle. replace m with 0%nat by lia. done.
Qed.

Lemma get_hit_promotes k v c c1 :
  cache_inv c →
  LRUCache.get k c = Some (Some v, c1) →
  LRUCache.newest c1 = Some k ∧
  ((2 ≤ length (LRUCache._d c1))%nat →
   LRUCache.victim c1 ≠ Some k ∧
   ∀ k' v' c2, LRUCache.put k' v' c1 = Some c2 →
               OrderedDict.contains k (LRUCache._d c2) = true).
Proof.
  intros (Hmax & Hlen & Hnd). rewrite get_spec.
  destruct (OrderedDict.getitem k (LRUCache._d c)) as [v0|] eqn:Hg; [|done].
  intros [= -> <-]. unfold LRUCache.newest, LRUCache.victim. simpl.
  unfold inserted. split.
  { by rewrite last_snoc. }
  remember (OrderedDict.remove k (LRUCache._d c)) as r eqn:Er.
  assert (Hr : OrderedDict.getitem k r = None)
    by (rewrite Er; apply getitem_remove_eq).
  assert (Hrl : (length r < length (LRUCache._d c))%nat)
    by (rewrite Er; eapply length_remove_lt; exact Hg).
  clear Er. rewrite length_app. simpl. intros Hlen2.
  assert (Hrpos : (1 ≤ length r)%nat) by lia.
  split.
  { destruct r as [|[k0 v0] r']; [simpl in Hrpos; lia|].
    simpl. intros [= ->]. simpl in Hr. by rewrite decide_True in Hr. }
  intros k' v' c2. rewrite put_spec by (simpl; lia). intros [= <-]. simpl.
  unfold OrderedDict.contains, inserted.
  destruct (decide (k' = k)) as [->|Hne].
  - rewrite remove_app. simpl. rewrite decide_True by done.
    rewrite app_nil_r, (remove_absent k r) by done.
    rewrite length_app. simpl.
    replace (length r + 1 - Z.to_nat (LRUCache.max_items c))%nat with 0%nat by lia.
    rewrite drop_0, getitem_app, Hr. simpl. by rewrite decide_True.
  - rewrite remove_app. simpl. rewrite decide_False by done.
    remember (OrderedDict.remove k' r) as r2 eqn:Er2.
    assert (Hr2 : OrderedDict.getitem k r2 = None).
    { rewrite Er2. by rewrite getitem_remove_ne. }
    assert (Hr2l : (length r2 ≤ length r)%nat)
      by (rewrite Er2; apply length_remove_le).
    clear Er2. rewrite <- app_assoc. rewrite !length_app. simpl.
    rewrite drop_app_le by lia.
    rewrite getitem_app, getitem_drop_None by done.
    simpl. by rewrite decide_True.
Qed.

(** Claim C10 (cache capacity coercion).  For every constructor argument
    [n], zero and negative ones included, the capacity of the cache is
    [max(1, n)], which is at least 1.  A [put] into the fresh cache keeps
    the inserted entry, which a following [get] returns; and after any
    run of operations a [put] still succeeds and the entry it inserted
    is in the cache. *)
Theorem lru_capacity_coercion (n : Z) (ops : list (LRUCache.op K V)) k v :
  LRUCache.max_items (LRUCache.init (K:=K) (V:=V) n) = Z.max 1 n ∧
  1 ≤ LRUCache.max_items (LRUCache.init (K:=K) (V:=V) n) ∧
  (∃ c1, LRUCache.put k v (LRUCache.init n) = Some c1 ∧
         LRUCache._d c1 = [(k, v)] ∧
         LRUCache.get k c1 = Some (Some v, c1)) ∧
  (∃ c c', LRUCache.run ops (LRUCache.init n) = Some c ∧
           LRUCache.max_items c = Z.max 1 n ∧
           LRUCache.put k v c = Some c' ∧
           OrderedDict.getitem k (LRUCache._d c') = Some v).
Proof.
  split_and!; [done|simpl; lia| |].
  - rewrite put_spec by (simpl; lia). eexists; split; [done|]. simpl.
    replace (1 - Z.to_nat (1 `max` n))%nat with 0%nat by lia. simpl.
    split; [done|]. rewrite get_spec. simpl. rewrite decide_True by done.
    unfold inserted. simpl. by rewrite decide_True.
  - destruct (cache_inv_run ops _ (cache_inv_init n)) as (c & Hrun & Hinv & Hm).
    pose proof Hinv as (Hmax & _).
    destruct (put_evicts_oldest k v c Hinv) as (c' & ev & Hput & _).
    exists c, c'. split_and!; [done|done|done|].
    by eapply getitem_put.
Qed.

(** Claim C6 (LRU invariant), as amended.  Take the cache built with any
    argument [n] (capacity [N = max(1, n)]) and run any sequence of
    [get], [put] and [clear] on it.  No operation raises, and the cache
    holds at most [N] entries; every prefix of the sequence is such a
    sequence, so this holds after each operation.  A further [put]
    removes a prefix [evicted] of the dictionary in recency order, that
    is the least recently used entries and nothing else: at most one
    entry, none when the size does not exceed [N], and the size is
    exactly [N] when it did.  A [get] that hits makes its key the most
    recently used entry; when the cache holds at least two entries, the
    key is not the next eviction victim and the following [put] does not
    evict it. *)
Theorem lru_invariant (n : Z) (ops : list (LRUCache.op K V)) :
  ∃ c, LRUCache.run ops (LRUCache.init n) = Some c ∧
       LRUCache.max_items c = Z.max 1 n ∧
       Z.of_nat (length (LRUCache._d c)) ≤ LRUCache.max_items c ∧
       (∀ k v, ∃ c' evicted,
          LRUCache.put k v c = Some c' ∧
          inserted k v (LRUCache._d c) = evicted ++ LRUCache._d c' ∧
          (length evicted ≤ 1)%nat ∧
          (LRUCache.max_items c < Z.of_nat (length (inserted k v (LRUCache._d c))) →
           Z.of_nat (length (LRUCache._d c')) = LRUCache.max_items c) ∧
          (Z.of_nat (length (inserted k v (LRUCache._d c))) ≤ LRUCache.max_items c →
           evicted = [])) ∧
       (∀ k v c1,
          LRUCache.get k c = Some (Some v, c1) →
          LRUCache.newest c1 = Some k ∧
          ((2 ≤ length (LRUCache._d c1))%nat →
           LRUCache.victim c1 ≠ Some k ∧
           ∀ k' v' c2, LRUCache.put k' v' c1 = Some c2 →
                       OrderedDict.contains k (LRUCache._d c2) = true)).
Proof.
  destruct (cache_inv_run ops _ (cache_inv_init n)) as (c & Hrun & Hinv & Hm).
  exists c. split_and!; [done|done|by destruct Hinv as (_ & ? & _)| |].
  - intros k v. by apply put_evicts_oldest.
  - intros k v c1. by apply get_hit_promotes.
Qed.
End CacheClaims.

(** Claim C6 as stated fails when the cache holds a single entry: in a
    cache of capacity 1, the key that [get] has just hit is the oldest
    entry as well, and the next [put] of another key evicts it. *)
Lemma lru_hit_is_next_victim :
  ¬ hit_never_next_victim (K:=string) (V:=nat) ∧
  ∃ c1 c2 c3 : LRUCache._LRUCache string nat,
    LRUCache.put "a" 1%nat (LRUCache.init 1) = Some c1 ∧
    LRUCache.get "a" c1 = Some (Some 1%nat, c2) ∧
    LRUCache.victim c2 = Some "a" ∧
    LRUCache.put "b" 2%nat c2 = Some c3 ∧
    OrderedDict.contains "a" (LRUCache._d c3) = false.
Proof.
  split.
  - intros Hclaim.
    apply (Hclaim 1 [LRUCache.Put "a" 1%nat]
             (LRUCache.mk 1 [("a", 1%nat)]) (LRUCache.mk 1 [("a", 1%nat)])
             "a" 1%nat); [lia|reflexivity|reflexivity|reflexivity].
  - do 3 eexists. split_and!; reflexivity.
Qed.

(** ** The framebuffer and the blits *)

Section BlitFacts.
Context {Img : Type} `{PIL.Bitmap Img}.
Implicit Types lcd : U8G2SimLCD.U8G2SimLCD Img.

Lemma frame_refl lcd : frame lcd lcd.
Proof. by unfold frame. Qed.

Lemma frame_trans lcd1 lcd2 lcd3 :
  frame lcd1 lcd2 → frame lcd2 lcd3 → frame lcd1 lcd3.
Proof. unfold frame. intros (?&?&?&?&?) (?&?&?&?&?). split_and!; congruence. Qed.

Lemma wf_frame lcd lcd' :
  U8G2SimLCD.wf lcd → frame lcd lcd' → U8G2SimLCD.wf lcd'.
Proof.
  unfold U8G2SimLCD.wf, frame. intros [Hs Hc] (Hw & Hh & _ & Hcache & Hsz).
  rewrite Hsz, Hs, Hw, Hh, Hcache. done.
Qed.

Lemma in_range_frame lcd lcd' x y :
  frame lcd lcd' → U8G2SimLCD.in_range lcd' x y = U8G2SimLCD.in_range lcd x y.
Proof. unfold U8G2SimLCD.in_range. intros (-> & -> & _). done. Qed.

Lemma plotted_none (lit : Z * Z → Prop) color lcd :
  (∀ p, ¬ lit p) → plotted lit color lcd lcd.
Proof. intros Hno. split; [apply frame_refl|]. intros p. right. split; [done|apply Hno]. Qed.

Lemma plotted_ext (lit1 lit2 : Z * Z → Prop) color lcd lcd' :
  (∀ p, lit1 p ↔ lit2 p) → plotted lit1 color lcd lcd' → plotted lit2 color lcd lcd'.
Proof.
  intros Hiff [Hf Hp]. split; [done|]. intros p.
  destruct (Hp p) as [[? ?]|[? ?]]; [left|right]; split; try done; by rewrite <- Hiff.
Qed.

Lemma plotted_trans (lit1 lit2 : Z * Z → Prop) color lcd1 lcd2 lcd3 :
  plotted lit1 color lcd1 lcd2 → plotted lit2 color lcd2 lcd3 →
  plotted (λ p, lit1 p ∨ lit2 p) color lcd1 lcd3.
Proof.
  intros [Hf1 Hp1] [Hf2 Hp2]. split; [by eapply frame_trans|]. intros p.
  destruct (Hp2 p) as [[E2 L2]|[E2 L2]].
  - left. split; [done|by right].
  - destruct (Hp1 p) as [[E1 L1]|[E1 L1]].
    + left. split; [congruence|by left].
    + right. split; [congruence|]. by intros [?|?].
Qed.

Lemma plotted_put lcd x y color :
  U8G2SimLCD.wf lcd → U8G2SimLCD.in_range lcd x y = true →
  ∃ lcd', U8G2SimLCD.img_putpixel x y color lcd = Some lcd' ∧
          plotted (λ p, p = (x, y)) color lcd lcd'.
Proof.
  intros [Hs _] Hin. unfold U8G2SimLCD.img_putpixel, PIL.putpixel.
  assert (PIL.inside (U8G2SimLCD.img lcd) (x, y) = true) as ->.
  { unfold PIL.inside. rewrite Hs. exact Hin. }
  simpl. eexists; split; [done|]. split; [by unfold frame|]. simpl.
  intros p. destruct (decide (p = (x, y))) as [->|Hne].
  - left. by rewrite lookup_insert_eq.
  - right. by rewrite lookup_insert_ne.
Qed.

Lemma for_each_plotted {A : Type} (l : list A)
    (body : A → U8G2SimLCD.U8G2SimLCD Img → option (U8G2SimLCD.U8G2SimLCD Img))
    (lit : A → Z * Z → Prop) color lcd0 :
  (∀ a lcd, a ∈ l → U8G2SimLCD.wf lcd → frame lcd0 lcd →
     ∃ lcd', body a lcd = Some lcd' ∧ plotted (lit a) color lcd lcd') →
  ∀ lcd, U8G2SimLCD.wf lcd → frame lcd0 lcd →
    ∃ lcd', for_each l body lcd = Some lcd' ∧
            plotted (λ p, ∃ a, a ∈ l ∧ lit a p) color lcd lcd'.
Proof.
  induction l as [|a l IH]; intros Hbody lcd Hwf Hfr; simpl.
  - exists lcd. split; [done|]. apply plotted_none.
    intros p (a & Ha & _). by apply elem_of_nil in Ha.
  - destruct (Hbody a lcd) as (lcd1 & -> & Hp1); [by left|done|done|]. simpl.
    pose proof Hp1 as [Hf1 _].
    destruct (IH (λ a' lcd' Ha', Hbody a' lcd' (list_elem_of_further _ _ _ Ha')) lcd1)
      as (lcd2 & -> & Hp2); [by eapply wf_frame|by eapply frame_trans|].
    exists lcd2. split; [done|].
    eapply plotted_ext; [|exact (plotted_trans _ _ _ _ _ _ Hp1 Hp2)].
    intros p. split.
    + intros [?|(a' & ? & ?)]; [exists a; split; [by left|done]|].
      exists a'. split; [by right|done].
    + intros (a' & [->|?]%elem_of_cons & ?); [by left|]. right. by exists a'.
Qed.

Lemma elem_of_range (n i : Z) : i ∈ range n ↔ 0 ≤ i < n.
Proof. unfold range. rewrite elem_of_seqZ. lia. Qed.

(** *** The packed blit *)

Lemma byte_bit (b k : Z) :
  0 ≤ k ≤ 7 →
  Z.land (Z.shiftr (Z.land b 255) k) 1 = if Z.testbit b k then 1 else 0.
Proof.
  intros Hk. change 1 with (Z.ones 1) at 1. rewrite Z.land_ones by lia.
  change (2 ^ 1) with 2. rewrite <- Z.bit0_mod.
  rewrite Z.shiftr_spec by lia. rewrite Z.land_spec. simpl.
  change 255 with (Z.ones 8). rewrite Z.ones_spec_low by lia.
  rewrite andb_true_r, Z.add_0_l. by destruct (Z.testbit b k).
Qed.

Lemma bitmap1_bit_spec (data : list Z) (stride : Z) (invert : bool) (row col : Z) :
  0 ≤ row → 0 ≤ col → 0 ≤ stride →
  U8G2SimLCD.bitmap1_bit ((λ b, Z.land b 255) <$> data) stride invert row col =
  Some (if xorb (packed_bit data stride row col) invert then 1 else 0).
Proof.
  intros Hr Hc Hs. unfold U8G2SimLCD.bitmap1_bit, packed_bit, bytes_getitem.
  rewrite length_fmap.
  assert (Hidx : 0 ≤ row * stride + col `div` 8).
  { pose proof (Z.div_pos col 8). nia. }
  assert (Hk : 0 ≤ 7 - col `mod` 8 ≤ 7).
  { pose proof (Z.mod_pos_bound col 8). lia. }
  set (idx := row * stride + col `div` 8) in *.
  destruct (Z.ltb_spec idx (Z.of_nat (length data))) as [Hlt|Hge].
  - destruct (Z.ltb_spec idx 0); [lia|].
    destruct (Z.leb_spec 0 idx); [|lia]. simpl.
    destruct (lookup_lt_is_Some_2 data (Z.to_nat idx)) as [b Hb]; [lia|].
    rewrite list_lookup_fmap, Hb.
    destruct (Z.ltb_spec idx (Z.of_nat (length data))); [|lia].
    simpl. rewrite byte_bit by done.
    by destruct (Z.testbit b _), invert.
  - rewrite (lookup_ge_None_2 data (Z.to_nat idx)) by lia. simpl.
    by destruct invert.
Qed.

Lemma drawBitmap1_cell_plotted lcd0 lcd x y data stride invert color row col :
  0 ≤ row → 0 ≤ col → 0 ≤ stride →
  U8G2SimLCD.wf lcd → frame lcd0 lcd →
  ∃ lcd', U8G2SimLCD.drawBitmap1_cell x y ((λ b, Z.land b 255) <$> data)
            stride invert color row col lcd = Some lcd' ∧
          plotted (λ p, p = (x + col, y + row) ∧
                        xorb (packed_bit data stride row col) invert = true ∧
                        U8G2SimLCD.in_range lcd0 (x + col) (y + row) = true)
                  color lcd lcd'.
Proof.
  intros Hr Hc Hs Hwf Hfr. unfold U8G2SimLCD.drawBitmap1_cell.
  rewrite bitmap1_bit_spec by done. simpl.
  rewrite (in_range_frame _ _ _ _ Hfr).
  destruct (xorb _ invert) eqn:Hbit.
  - rewrite bool_decide_eq_true_2 by done.
    destruct (U8G2SimLCD.in_range lcd0 _ _) eqn:Hin.
    + destruct (plotted_put lcd (x + col) (y + row) color Hwf) as (lcd' & -> & Hp).
      { by rewrite (in_range_frame _ _ _ _ Hfr). }
      eexists; split; [done|]. eapply plotted_ext; [|exact Hp].
      intros p. simpl. tauto.
    + eexists; split; [done|]. apply plotted_none. intros p (_ & _ & ?). done.
  - rewrite bool_decide_eq_false_2 by (intros ?; done).
    eexists; split; [done|]. apply plotted_none. intros p (_ & ? & _). done.
Qed.

Lemma drawBitmap1_plotted lcd x y w h data invert :
  U8G2SimLCD.wf lcd →
  ∃ lcd', U8G2SimLCD.drawBitmap1 x y w h data None invert lcd = Some lcd' ∧
          plotted (bitmap1_lit lcd x y w h data invert)
                  (U8G2SimLCD.draw_color lcd) lcd lcd'.
Proof.
  intros Hwf. unfold U8G2SimLCD.drawBitmap1.
  edestruct (for_each_plotted (range h)
    (λ row, for_each (range w)
       (U8G2SimLCD.drawBitmap1_cell x y ((λ b, Z.land b 255) <$> data)
          ((w + 7) `div` 8) invert (U8G2SimLCD.draw_color lcd) row))
    (λ row p, ∃ col, col ∈ range w ∧
       (p = (x + col, y + row) ∧
        xorb (packed_bit data ((w + 7) `div` 8) row col) invert = true ∧
        U8G2SimLCD.in_range lcd (x + col) (y + row) = true))
    (U8G2SimLCD.draw_color lcd) lcd) as (lcd' & Hrun & Hp);
    [|exact Hwf|apply frame_refl|].
  - intros row lcd1 Hrow%elem_of_range Hwf1 Hfr1.
    apply (for_each_plotted (range w) _
      (λ col p, p = (x + col, y + row) ∧
         xorb (packed_bit data ((w + 7) `div` 8) row col) invert = true ∧
         U8G2SimLCD.in_range lcd (x + col) (y + row) = true)
      (U8G2SimLCD.draw_color lcd) lcd); [|done|done].
    intros col lcd2 Hcol%elem_of_range Hwf2 Hfr2.
    apply drawBitmap1_cell_plotted; try done; try lia.
    apply Z.div_pos; lia.
  - exists lcd'. split; [exact Hrun|]. eapply plotted_ext; [|exact Hp].
    intros p. unfold bitmap1_lit. split.
    + intros (r & Hr%elem_of_range & c & Hc%elem_of_range & ? & ? & ?).
      by exists r, c.
    + intros (r & c & Hr & Hc & ? & ? & ?).
      exists r. split; [by apply elem_of_range|].
      exists c. split; [by apply elem_of_range|done].
Qed.

(** *** The image blit *)

Lemma _blit_cell_plotted lcd0 lcd (px : Z * Z → Z) x y color j i :
  U8G2SimLCD.wf lcd → frame lcd0 lcd →
  ∃ lcd', U8G2SimLCD._blit_cell px x y color j i lcd = Some lcd' ∧
          plotted (λ p, p = (x + i, y + j) ∧ px (i, j) ≠ 0 ∧
                        U8G2SimLCD.in_range lcd0 (x + i) (y + j) = true)
                  color lcd lcd'.
Proof.
  intros Hwf Hfr. unfold U8G2SimLCD._blit_cell.
  rewrite (in_range_frame _ _ _ _ Hfr).
  destruct (decide (px (i, j) ≠ 0)) as [Hon|Hoff].
  - rewrite (bool_decide_eq_true_2 (px (i, j) ≠ 0)) by done.
    rewrite bool_decide_eq_true_2 by done. simpl.
    destruct (U8G2SimLCD.in_range lcd0 _ _) eqn:Hin.
    + destruct (plotted_put lcd (x + i) (y + j) color Hwf) as (lcd' & -> & Hp).
      { by rewrite (in_range_frame _ _ _ _ Hfr). }
      eexists; split; [done|]. eapply plotted_ext; [|exact Hp].
      intros p. simpl. tauto.
    + eexists; split; [done|]. apply plotted_none. intros p (_ & _ & ?). done.
  - rewrite (bool_decide_eq_false_2 (px (i, j) ≠ 0)) by done.
    rewrite bool_decide_eq_false_2 by (intros ?; done). simpl.
    eexists; split; [done|]. apply plotted_none. intros p (_ & ? & _). done.
Qed.

Lemma _blit_PIL_image_mono_plotted lcd (pil_img : Img) (px : Z * Z → Z) x y :
  U8G2SimLCD.wf lcd →
  PIL.load pil_img = Some px →
  ∃ lcd', U8G2SimLCD._blit_PIL_image_mono pil_img x y lcd = Some lcd' ∧
          plotted (image_lit lcd pil_img px x y) (U8G2SimLCD.draw_color lcd)
                  lcd lcd'.
Proof.
  intros Hwf Hload. unfold U8G2SimLCD._blit_PIL_image_mono, image_lit.
  destruct (PIL.img_size pil_img) as [w h]. rewrite Hload. simpl.
  edestruct (for_each_plotted (range h)
    (λ j, for_each (range w)
       (U8G2SimLCD._blit_cell px x y (U8G2SimLCD.draw_color lcd) j))
    (λ j p, ∃ i, i ∈ range w ∧
       (p = (x + i, y + j) ∧ px (i, j) ≠ 0 ∧
        U8G2SimLCD.in_range lcd (x + i) (y + j) = true))
    (U8G2SimLCD.draw_color lcd) lcd) as (lcd' & Hrun & Hp);
    [|exact Hwf|apply frame_refl|].
  - intros j lcd1 _ Hwf1 Hfr1.
    apply (for_each_plotted (range w) _
      (λ i p, p = (x + i, y + j) ∧ px (i, j) ≠ 0 ∧
         U8G2SimLCD.in_range lcd (x + i) (y + j) = true)
      (U8G2SimLCD.draw_color lcd) lcd); [|done|done].
    intros i lcd2 _ Hwf2 Hfr2. by apply _blit_cell_plotted.
  - exists lcd'. split; [exact Hrun|]. eapply plotted_ext; [|exact Hp].
    intros p. split.
    + intros (j & Hj%elem_of_range & i & Hi%elem_of_range & ? & ? & ?).
      by exists j, i.
    + intros (j & i & Hj & Hi & ? & ? & ?).
      exists j. split; [by apply elem_of_range|].
      exists i. split; [by apply elem_of_range|done].
Qed.

Lemma _blit_PIL_image_mono_raises lcd (pil_img : Img) x y :
  PIL.load pil_img = None →
  U8G2SimLCD._blit_PIL_image_mono pil_img x y lcd = None.
Proof.
  intros Hload. unfold U8G2SimLCD._blit_PIL_image_mono.
  destruct (PIL.img_size pil_img) as [w h]. by rewrite Hload.
Qed.
End BlitFacts.

Section BlitClaims.
Context {Img : Type} `{PIL.Bitmap Img}.
Implicit Types lcd : U8G2SimLCD.U8G2SimLCD Img.

Lemma plotted_nothing (lit : Z * Z → Prop) color lcd lcd' :
  (∀ p, ¬ lit p) → plotted lit color lcd lcd' → lcd' = lcd.
Proof.
  intros Hno [(Hw & Hh & Hc & Hb & Hs) Hp].
  assert (Hpx : PIL.px (U8G2SimLCD.img lcd') = PIL.px (U8G2SimLCD.img lcd)).
  { apply map_eq. intros p. destruct (Hp p) as [[_ Hl]|[E _]]; [|done].
    by apply Hno in Hl. }
  destruct lcd as [w h [sz px] c b], lcd' as [w' h' [sz' px'] c' b'].
  simpl in *. by subst.
Qed.

(** Claim C4 (packed 1-bpp blit decoding), as amended.  With the default
    stride [ceil(w/8)] and for every [x], [y], [w], [h], inversion flag
    and byte sequence of any length, the blit raises nothing and writes
    exactly the pixels [(x+c, y+r)] with [r] in [0,h), [c] in [0,w) whose
    bit is 1 after the optional flip and whose destination is inside the
    framebuffer, each with the current draw colour; every other pixel is
    untouched.  The bit is bit [7 - (c mod 8)] of byte [r*stride + c/8],
    and 0 when that index is past the end of the data; the flip applies
    to these bits too.  Without inversion this set is the claimed one
    cut down to the framebuffer. *)
Theorem drawBitmap1_decoding lcd (x y w h : Z) (data : list Z) (invert : bool)
    (Hwf : U8G2SimLCD.wf lcd) :
  ∃ lcd', U8G2SimLCD.drawBitmap1 x y w h data None invert lcd = Some lcd' ∧
          plotted (bitmap1_lit lcd x y w h data invert)
                  (U8G2SimLCD.draw_color lcd) lcd lcd' ∧
          (∀ r c, Z.of_nat (length data) ≤ r * ((w + 7) `div` 8) + c `div` 8 →
                  packed_bit data ((w + 7) `div` 8) r c = false) ∧
          (invert = false →
           ∀ p, bitmap1_lit lcd x y w h data invert p ↔
                bitmap1_lit_claimed x y w h data invert p ∧
                U8G2SimLCD.in_range lcd p.1 p.2 = true).
Proof.
  destruct (drawBitmap1_plotted lcd x y w h data invert Hwf) as (lcd' & Hrun & Hp).
  exists lcd'. split_and!; [done|done| |].
  - intros r c Hge. unfold packed_bit.
    by rewrite (lookup_ge_None_2 data) by lia.
  - intros -> p. unfold bitmap1_lit, bitmap1_lit_claimed. split.
    + intros (r & c & Hr & Hc & -> & Hbit & Hin). split; [|done].
      exists r, c. split_and!; try done; try lia.
      rewrite xorb_false_r in Hbit. unfold packed_bit in Hbit.
      destruct (data !! _) eqn:Hl; [|done].
      apply lookup_lt_Some in Hl.
      assert (0 ≤ c `div` 8) by (apply Z.div_pos; lia).
      assert (0 ≤ (w + 7) `div` 8) by (apply Z.div_pos; lia).
      assert (0 ≤ r * ((w + 7) `div` 8)) by nia.
      lia.
    + intros [(r & c & Hr & Hc & -> & _ & Hbit) Hin]. by exists r, c.
Qed.

(** Claim C7 (clipping).  For every coordinate outside
    [0,width) x [0,height): [drawPixel] there returns the simulator
    unchanged; the per-pixel step of the packed blit and of the image
    blit with that destination returns it unchanged (the packed one once
    its bit is decoded); the whole blits (the image blit once
    [pil_img.load()] has given the pixels) raise nothing, keep the pixel
    store at that coordinate as it was, and change nothing at all when
    every destination is outside the framebuffer. *)
Theorem clipping lcd (tx ty : Z)
    (Hwf : U8G2SimLCD.wf lcd)
    (Hout : U8G2SimLCD.in_range lcd tx ty = false) :
  U8G2SimLCD.drawPixel tx ty lcd = Some lcd ∧
  (∀ x y buf stride invert color row col,
     x + col = tx → y + row = ty →
     U8G2SimLCD.drawBitmap1_cell x y buf stride invert color row col lcd =
     (_ ← U8G2SimLCD.bitmap1_bit buf stride invert row col; Some lcd)) ∧
  (∀ (px : Z * Z → Z) x y color j i,
     x + i = tx → y + j = ty →
     U8G2SimLCD._blit_cell px x y color j i lcd = Some lcd) ∧
  (∀ x y w h data invert,
     ∃ lcd', U8G2SimLCD.drawBitmap1 x y w h data None invert lcd = Some lcd' ∧
             frame lcd lcd' ∧
             PIL.px (U8G2SimLCD.img lcd') !! (tx, ty) =
             PIL.px (U8G2SimLCD.img lcd) !! (tx, ty) ∧
             ((∀ r c, 0 ≤ r < h → 0 ≤ c < w →
                      U8G2SimLCD.in_range lcd (x + c) (y + r) = false) →
              lcd' = lcd)) ∧
  (∀ (pil_img : Img) (px : Z * Z → Z) x y,
     PIL.load pil_img = Some px →
     ∃ lcd', U8G2SimLCD._blit_PIL_image_mono pil_img x y lcd = Some lcd' ∧
             frame lcd lcd' ∧
             PIL.px (U8G2SimLCD.img lcd') !! (tx, ty) =
             PIL.px (U8G2SimLCD.img lcd) !! (tx, ty) ∧
             ((∀ j i, 0 ≤ j < (PIL.img_size pil_img).2 →
                      0 ≤ i < (PIL.img_size pil_img).1 →
                      U8G2SimLCD.in_range lcd (x + i) (y + j) = false) →
              lcd' = lcd)).
Proof.
  split_and!.
  - unfold U8G2SimLCD.drawPixel. by rewrite Hout.
  - intros x y buf stride invert color row col <- <-.
    unfold U8G2SimLCD.drawBitmap1_cell. rewrite Hout.
    destruct (U8G2SimLCD.bitmap1_bit _ _ _ _ _) as [bit|]; simpl; [|done].
    by destruct (bool_decide _).
  - intros px x y color j i <- <-.
    unfold U8G2SimLCD._blit_cell. rewrite Hout. by rewrite andb_false_r.
  - intros x y w h data invert.
    destruct (drawBitmap1_plotted lcd x y w h data invert Hwf)
      as (lcd' & Hrun & Hp).
    exists lcd'. pose proof Hp as [Hf Hpx]. split_and!; [done|done| |].
    + destruct (Hpx (tx, ty)) as [[_ (r & c & _ & _ & [= -> ->] & _ & Hin)]|[E _]];
        [congruence|done].
    + intros Hall. eapply plotted_nothing; [|exact Hp].
      intros p (r & c & Hr & Hc & _ & _ & Hin). rewrite Hall in Hin; done.
  - intros pil_img px x y Hload.
    destruct (_blit_PIL_image_mono_plotted lcd pil_img px x y Hwf Hload)
      as (lcd' & Hrun & Hp).
    exists lcd'. pose proof Hp as [Hf Hpx]. split_and!; [done|done| |].
    + destruct (Hpx (tx, ty)) as [[_ (j & i & _ & _ & [= -> ->] & _ & Hin)]|[E _]];
        [congruence|done].
    + intros Hall. eapply plotted_nothing; [|exact Hp].
      intros p (j & i & Hj & Hi & _ & _ & Hin). rewrite Hall in Hin; done.
Qed.
End BlitClaims.

Lemma wf_init (width height cache_size : Z) :
  U8G2SimLCD.wf (U8G2SimLCD.init (Img:=Raster.t) width height cache_size).
Proof. split; [done|]. simpl. lia. Qed.

Lemma drawBitmap1_decoding_witness :
  ∃ lcd', U8G2SimLCD.drawBitmap1 2 3 4 1 [240] None false lcd0 = Some lcd' ∧
          plotted (bitmap1_lit lcd0 2 3 4 1 [240] false) 255 lcd0 lcd'.
Proof.
  destruct (drawBitmap1_decoding lcd0 2 3 4 1 [240] false (wf_init 128 64 64))
    as (lcd' & Hrun & Hp & _).
  exists lcd'. split; [exact Hrun|exact Hp].
Defined.

Lemma clipping_witness :
  U8G2SimLCD.drawPixel (-1) 0 lcd0 = Some lcd0 ∧
  U8G2SimLCD.drawPixel 128 63 lcd0 = Some lcd0.
Proof.
  split.
  - exact (proj1 (clipping lcd0 (-1) 0 (wf_init 128 64 64) eq_refl)).
  - exact (proj1 (clipping lcd0 128 63 (wf_init 128 64 64) eq_refl)).
Defined.

(** Claim C4 as stated fails in two ways.  With inversion, a bit past
    the end of the data decodes as 0 and is flipped to 1, so its pixel is
    written although its byte index is not within the data.  And a set
    bit whose destination is left of the framebuffer is in the claimed
    set although nothing is written. *)
Lemma packed_blit_claimed_set_differs :
  (∃ lcd', U8G2SimLCD.drawBitmap1 0 0 1 1 [] None true lcd0 = Some lcd' ∧
           PIL.pixel (U8G2SimLCD.img lcd0) (0, 0) = 0 ∧
           PIL.pixel (U8G2SimLCD.img lcd') (0, 0) = 255 ∧
           ¬ bitmap1_lit_claimed 0 0 1 1 [] true (0, 0)) ∧
  (∃ lcd', U8G2SimLCD.drawBitmap1 (-1) 0 1 1 [128] None false lcd0 = Some lcd' ∧
           bitmap1_lit_claimed (-1) 0 1 1 [128] false (-1, 0) ∧
           lcd' = lcd0).
Proof.
  split.
  - eexists. split; [vm_compute; reflexivity|]. split_and!; [done|done|].
    intros (r & c & Hr & Hc & _ & Hidx & _).
    assert (r = 0) as -> by lia. assert (c = 0) as -> by lia.
    vm_compute in Hidx. done.
  - eexists. split; [vm_compute; reflexivity|]. split; [|reflexivity].
    exists 0, 0. split_and!; try done; lia.
Qed.

(** The buffer [0b11110000] with [w = 4], [h = 1] lights columns 0 to 3
    and no other. *)
Example packed_blit_scenario :
  ∃ lcd', U8G2SimLCD.drawBitmap1 0 0 4 1 [240] None false lcd0 = Some lcd' ∧
          (λ c, PIL.pixel (U8G2SimLCD.img lcd') (c, 0)) <$> [0; 1; 2; 3; 4; 5] =
          [255; 255; 255; 255; 0; 0].
Proof. eexists. split; [vm_compute; reflexivity|reflexivity]. Qed.

(** ** Loading bitmap files *)

Section LoadFacts.
Context {Img : Type} `{PIL.Bitmap Img}.
Implicit Types (lcd : U8G2SimLCD.U8G2SimLCD Img) (os : U8G2SimLCD.OS Img).

Lemma set_bmp_cache_id lcd : U8G2SimLCD.set_bmp_cache lcd (U8G2SimLCD._bmp_cache lcd) = lcd.
Proof. by destruct lcd. Qed.

Lemma cache_key_degraded os path invert :
  cannot_stat os path → U8G2SimLCD.cache_key os path invert = (path, None, invert).
Proof.
  unfold cannot_stat, U8G2SimLCD.cache_key. intros Hs.
  destruct (U8G2SimLCD.os_path_abspath os path) as [a|]; simpl in *; [|done].
  by rewrite Hs.
Qed.

Lemma cache_key_stat os path invert a m :
  U8G2SimLCD.os_path_abspath os path = Some a →
  U8G2SimLCD.os_stat os a = Some m →
  U8G2SimLCD.cache_key os path invert = (a, Some (py_int m), invert).
Proof. unfold U8G2SimLCD.cache_key. intros -> Hm. simpl. by rewrite Hm. Qed.

Lemma load_hit os path invert lcd im :
  OrderedDict.getitem (U8G2SimLCD.cache_key os path invert)
    (LRUCache._d (U8G2SimLCD._bmp_cache lcd)) = Some im →
  U8G2SimLCD._load_image_mono_cached os path invert lcd =
  Some (Some im,
        U8G2SimLCD.set_bmp_cache lcd
          (LRUCache.mk (LRUCache.max_items (U8G2SimLCD._bmp_cache lcd))
             (inserted (U8G2SimLCD.cache_key os path invert) im
                (LRUCache._d (U8G2SimLCD._bmp_cache lcd)))),
        []).
Proof.
  intros Hg. unfold U8G2SimLCD._load_image_mono_cached.
  rewrite get_spec, Hg. done.
Qed.

Lemma load_miss_open_error os path invert lcd e :
  OrderedDict.getitem (U8G2SimLCD.cache_key os path invert)
    (LRUCache._d (U8G2SimLCD._bmp_cache lcd)) = None →
  U8G2SimLCD.Image_open os path = inl e →
  exn_is_Exception e = true →
  U8G2SimLCD._load_image_mono_cached os path invert lcd =
  Some (None, lcd, ["[BMP] open error: " +:+ exn_str e]).
Proof.
  intros Hg Ho He. unfold U8G2SimLCD._load_image_mono_cached.
  rewrite get_spec, Hg. simpl. rewrite Ho, He. by rewrite set_bmp_cache_id.
Qed.

Lemma load_miss_decode os path invert lcd img0 im :
  U8G2SimLCD.wf lcd →
  OrderedDict.getitem (U8G2SimLCD.cache_key os path invert)
    (LRUCache._d (U8G2SimLCD._bmp_cache lcd)) = None →
  U8G2SimLCD.Image_open os path = inr img0 →
  U8G2SimLCD.to_mono img0 invert = Some im →
  ∃ c, LRUCache.put (U8G2SimLCD.cache_key os path invert) im
         (U8G2SimLCD._bmp_cache lcd) = Some c ∧
       OrderedDict.getitem (U8G2SimLCD.cache_key os path invert) (LRUCache._d c) =
         Some im ∧
       U8G2SimLCD._load_image_mono_cached os path invert lcd =
         Some (Some im, U8G2SimLCD.set_bmp_cache lcd c, []).
Proof.
  intros [_ Hmax] Hg Ho Hm. unfold U8G2SimLCD._load_image_mono_cached.
  rewrite get_spec, Hg. simpl. rewrite Ho, Hm, set_bmp_cache_id. simpl.
  rewrite put_spec by lia. eexists. split; [done|]. split; [|done].
  eapply getitem_put; [exact Hmax|]. by rewrite put_spec by lia.
Qed.

(** An exception of the conversions leaves [_load_image_mono_cached] and
    with it the two file blits. *)
Lemma load_miss_decode_raises os path invert lcd img0 :
  OrderedDict.getitem (U8G2SimLCD.cache_key os path invert)
    (LRUCache._d (U8G2SimLCD._bmp_cache lcd)) = None →
  U8G2SimLCD.Image_open os path = inr img0 →
  U8G2SimLCD.to_mono img0 invert = None →
  U8G2SimLCD._load_image_mono_cached os path invert lcd = None ∧
  (∀ x y, U8G2SimLCD.drawXBMfile os path x y invert lcd = None ∧
          U8G2SimLCD.drawPBMfile os path x y invert lcd = None).
Proof.
  intros Hg Ho Hm.
  assert (Hl : U8G2SimLCD._load_image_mono_cached os path invert lcd = None).
  { unfold U8G2SimLCD._load_image_mono_cached.
    rewrite get_spec, Hg. simpl. by rewrite Ho, Hm. }
  split; [done|]. intros x y.
  unfold U8G2SimLCD.drawXBMfile, U8G2SimLCD.drawPBMfile. by rewrite Hl.
Qed.

(** Claim C2 (degraded cache key), as amended.  When the file cannot be
    stat'ed, the key is [(path, None, invert)].  Such keys are equal
    across calls for the same path and flag; on a miss the decoded image
    (the result [im] of the conversions of the opened file) is stored in
    the cache under the degraded key, and a second call
    with the same path that again cannot stat hits the cache and returns
    that image without opening the file. *)
Theorem degraded_cache_key os (path : string) (invert : bool) lcd
    (Hwf : U8G2SimLCD.wf lcd)
    (Hstat : cannot_stat os path) :
  U8G2SimLCD.cache_key os path invert = (path, None, invert) ∧
  (∀ os', cannot_stat os' path →
          U8G2SimLCD.cache_key os' path invert =
          U8G2SimLCD.cache_key os path invert) ∧
  (∀ img0 im,
     OrderedDict.getitem (path, None, invert)
       (LRUCache._d (U8G2SimLCD._bmp_cache lcd)) = None →
     U8G2SimLCD.Image_open os path = inr img0 →
     U8G2SimLCD.to_mono img0 invert = Some im →
     ∃ lcd',
       U8G2SimLCD._load_image_mono_cached os path invert lcd =
         Some (Some im, lcd', []) ∧
       OrderedDict.getitem (path, None, invert)
         (LRUCache._d (U8G2SimLCD._bmp_cache lcd')) = Some im ∧
       ∀ os', cannot_stat os' path →
         ∃ lcd'',
           U8G2SimLCD._load_image_mono_cached os' path invert lcd' =
             Some (Some im, lcd'', [])).
Proof.
  pose proof (cache_key_degraded os path invert Hstat) as Hkey.
  split_and!; [done| |].
  - intros os' Hs'. by rewrite Hkey, cache_key_degraded.
  - intros img0 im Hmiss Hopen Hmono. rewrite <- Hkey in Hmiss.
    destruct (load_miss_decode os path invert lcd img0 im Hwf Hmiss Hopen Hmono)
      as (c & Hput & Hget & Hload).
    exists (U8G2SimLCD.set_bmp_cache lcd c). rewrite <- Hkey.
    split_and!; [done|done|].
    intros os' Hs'. eexists. apply load_hit.
    rewrite (cache_key_degraded os' path invert Hs'), <- Hkey. exact Hget.
Qed.

(** Claim C3 (cache key timestamp identity), as amended.  For two loads
    of a path that both stat the file, with the same inversion flag, the
    key is [(abspath, int(st_mtime), invert)]: the two keys are equal
    exactly when the resolved paths are equal and the whole seconds
    [int(st_mtime)] are.  A change of the whole second gives a different
    key; a load whose key is not in the cache opens the file and returns
    the image [im] its conversions give; and a load whose key is in the
    cache, as after a change within one second, returns the cached
    image. *)
Theorem cache_key_timestamp (os1 os2 : U8G2SimLCD.OS Img) (path : string)
    (invert : bool) (a1 a2 : string) (m1 m2 : Q)
    (Ha1 : U8G2SimLCD.os_path_abspath os1 path = Some a1)
    (Hm1 : U8G2SimLCD.os_stat os1 a1 = Some m1)
    (Ha2 : U8G2SimLCD.os_path_abspath os2 path = Some a2)
    (Hm2 : U8G2SimLCD.os_stat os2 a2 = Some m2) :
  U8G2SimLCD.cache_key os1 path invert = (a1, Some (py_int m1), invert) ∧
  (U8G2SimLCD.cache_key os1 path invert = U8G2SimLCD.cache_key os2 path invert
   ↔ a1 = a2 ∧ py_int m1 = py_int m2) ∧
  (py_int m1 ≠ py_int m2 →
   U8G2SimLCD.cache_key os1 path invert ≠ U8G2SimLCD.cache_key os2 path invert) ∧
  (∀ lcd img0 im,
     U8G2SimLCD.wf lcd →
     OrderedDict.getitem (U8G2SimLCD.cache_key os2 path invert)
       (LRUCache._d (U8G2SimLCD._bmp_cache lcd)) = None →
     U8G2SimLCD.Image_open os2 path = inr img0 →
     U8G2SimLCD.to_mono img0 invert = Some im →
     ∃ lcd', U8G2SimLCD._load_image_mono_cached os2 path invert lcd =
               Some (Some im, lcd', [])) ∧
  (∀ lcd im,
     OrderedDict.getitem (U8G2SimLCD.cache_key os1 path invert)
       (LRUCache._d (U8G2SimLCD._bmp_cache lcd)) = Some im →
     a1 = a2 → py_int m1 = py_int m2 →
     ∃ lcd', U8G2SimLCD._load_image_mono_cached os2 path invert lcd =
               Some (Some im, lcd', [])).
Proof.
  rewrite (cache_key_stat os1 path invert a1 m1 Ha1 Hm1).
  rewrite (cache_key_stat os2 path invert a2 m2 Ha2 Hm2).
  split_and!; [done| | | |].
  - split; [by intros [= -> ->]|by intros [-> ->]].
  - intros Hne [= _ Heq]. done.
  - intros lcd img0 im Hwf Hmiss Hopen Hmono.
    rewrite <- (cache_key_stat os2 path invert a2 m2 Ha2 Hm2) in Hmiss.
    destruct (load_miss_decode os2 path invert lcd img0 im Hwf Hmiss Hopen Hmono)
      as (c & _ & _ & Hload).
    by eexists.
  - intros lcd im Hhit -> Hint. rewrite Hint in Hhit.
    eexists. apply load_hit.
    by rewrite (cache_key_stat os2 path invert a2 m2 Ha2 Hm2).
Qed.

(** What the [try] around [Image.open] contains: when [Image.open]
    raises an exception of class [Exception] and the key is not in the
    cache, [drawXBMfile] and [drawPBMfile] return the simulator
    unchanged, framebuffer and cache included, and print the error.
    When the key is in the cache the file is not opened: the cached
    image is returned and blitted. *)
Lemma file_blit_open_failure os (path : string) (x y : Z) (invert : bool)
    lcd (e : Exn)
    (Hopen : U8G2SimLCD.Image_open os path = inl e)
    (Hexc : exn_is_Exception e = true) :
  (OrderedDict.getitem (U8G2SimLCD.cache_key os path invert)
     (LRUCache._d (U8G2SimLCD._bmp_cache lcd)) = None →
   U8G2SimLCD.drawXBMfile os path x y invert lcd =
     Some (lcd, ["[BMP] open error: " +:+ exn_str e]) ∧
   U8G2SimLCD.drawPBMfile os path x y invert lcd =
     Some (lcd, ["[BMP] open error: " +:+ exn_str e])) ∧
  (∀ im,
     OrderedDict.getitem (U8G2SimLCD.cache_key os path invert)
       (LRUCache._d (U8G2SimLCD._bmp_cache lcd)) = Some im →
     ∃ lcd1,
       U8G2SimLCD._load_image_mono_cached os path invert lcd =
         Some (Some im, lcd1, []) ∧
       U8G2SimLCD.drawXBMfile os path x y invert lcd =
         (lcd' ← U8G2SimLCD._blit_PIL_image_mono im x y lcd1; Some (lcd', [])) ∧
       U8G2SimLCD.drawPBMfile os path x y invert lcd =
         (lcd' ← U8G2SimLCD._blit_PIL_image_mono im x y lcd1; Some (lcd', []))).
Proof.
  split.
  - intros Hmiss. unfold U8G2SimLCD.drawXBMfile, U8G2SimLCD.drawPBMfile.
    by rewrite (load_miss_open_error os path invert lcd e Hmiss Hopen Hexc).
  - intros im Hhit. eexists. split; [by apply load_hit|].
    unfold U8G2SimLCD.drawXBMfile, U8G2SimLCD.drawPBMfile.
    by rewrite (load_hit os path invert lcd im Hhit).
Qed.

(** An image that went into the cache and whose pixels cannot be loaded
    makes the blit raise, on the call that cached it and on every hit. *)
Lemma file_blit_load_raises os (path : string) (x y : Z) (invert : bool)
    lcd lcd1 (im : Img) out :
  U8G2SimLCD._load_image_mono_cached os path invert lcd = Some (Some im, lcd1, out) →
  PIL.load im = None →
  U8G2SimLCD.drawXBMfile os path x y invert lcd = None ∧
  U8G2SimLCD.drawPBMfile os path x y invert lcd = None.
Proof.
  intros Hl Hpx. unfold U8G2SimLCD.drawXBMfile, U8G2SimLCD.drawPBMfile.
  rewrite Hl. simpl. by rewrite (_blit_PIL_image_mono_raises lcd1 im x y Hpx).
Qed.
End LoadFacts.

Lemma degraded_cache_key_witness :
  U8G2SimLCD.cache_key (os_no_stat (inr icon)) "icon.xbm" true =
  ("icon.xbm", None, true).
Proof.
  exact (proj1 (degraded_cache_key (os_no_stat (inr icon)) "icon.xbm" true lcd0
                  (wf_init 128 64 64) eq_refl)).
Defined.

Lemma cache_key_timestamp_witness :
  U8G2SimLCD.cache_key (os_at (401 # 4) (inr icon)) "icon.xbm" false =
  ("/home/u/icon.xbm", Some 100, false).
Proof.
  exact (proj1 (cache_key_timestamp (os_at (401 # 4) (inr icon))
                  (os_at (807 # 4) (inr icon2)) "icon.xbm" false
                  "/home/u/icon.xbm" "/home/u/icon.xbm" (401 # 4) (807 # 4)
                  eq_refl eq_refl eq_refl eq_refl)).
Defined.

Example file_blit_open_failure_example :
  U8G2SimLCD.drawXBMfile (os_at 100 (inl EACCES)) "icon.xbm" 5 5 false lcd0 =
  Some (lcd0, ["[BMP] open error: [Errno 13] Permission denied"]).
Proof.
  exact (proj1 (proj1 (file_blit_open_failure (os_at 100 (inl EACCES))
                         "icon.xbm" 5 5 false lcd0 EACCES eq_refl eq_refl) eq_refl)).
Qed.

(** Claim C2 as stated fails: the image loaded under a degraded key is
    in the cache after the call, the key of a second call is the same,
    and the second call returns the cached image although [Image.open]
    would raise. *)
Lemma degraded_key_is_cached :
  ∃ lcd1 lcd2,
    cannot_stat (os_no_stat (inr icon)) "icon.xbm" ∧
    cannot_stat (os_no_stat (inl EACCES)) "icon.xbm" ∧
    U8G2SimLCD._load_image_mono_cached (os_no_stat (inr icon)) "icon.xbm" false lcd0 =
      Some (Some icon, lcd1, []) ∧
    OrderedDict.contains ("icon.xbm", None, false)
      (LRUCache._d (U8G2SimLCD._bmp_cache lcd1)) = true ∧
    U8G2SimLCD.cache_key (os_no_stat (inr icon)) "icon.xbm" false =
      U8G2SimLCD.cache_key (os_no_stat (inl EACCES)) "icon.xbm" false ∧
    U8G2SimLCD._load_image_mono_cached (os_no_stat (inl EACCES)) "icon.xbm" false lcd1 =
      Some (Some icon, lcd2, []).
Proof. do 2 eexists. split_and!; try reflexivity. Qed.

(** Claim C3 as stated fails: the timestamps 100.25 and 100.75 differ,
    the keys are equal, and the second load returns the image of the
    first although the file now holds another one. *)
Lemma same_second_same_key :
  ∃ lcd1 lcd2,
    py_float_eq (401 # 4) (403 # 4) = false ∧
    U8G2SimLCD.cache_key (os_at (401 # 4) (inr icon)) "icon.xbm" false =
      U8G2SimLCD.cache_key (os_at (403 # 4) (inr icon2)) "icon.xbm" false ∧
    U8G2SimLCD._load_image_mono_cached (os_at (401 # 4) (inr icon)) "icon.xbm" false lcd0 =
      Some (Some icon, lcd1, []) ∧
    U8G2SimLCD._load_image_mono_cached (os_at (403 # 4) (inr icon2)) "icon.xbm" false lcd1 =
      Some (Some icon, lcd2, []) ∧
    icon ≠ icon2.
Proof. do 2 eexists. split_and!; try reflexivity. done. Qed.

(** The cache is asked before the file is opened: a file loaded once and
    then made unreadable, with its timestamp unchanged, is still drawn
    from the cache. *)
Example unreadable_file_cache_hit_draws :
  ∃ lcd1 lcd2 out,
    U8G2SimLCD.drawXBMfile (os_at 100 (inr icon)) "icon.xbm" 0 0 false lcd0 =
      Some (lcd1, []) ∧
    U8G2SimLCD.Image_open (os_at 100 (inl EACCES)) "icon.xbm" = inl EACCES ∧
    U8G2SimLCD.drawXBMfile (os_at 100 (inl EACCES)) "icon.xbm" 5 5 false lcd1 =
      Some (lcd2, out) ∧
    PIL.pixel (U8G2SimLCD.img lcd1) (5, 5) = 0 ∧
    PIL.pixel (U8G2SimLCD.img lcd2) (5, 5) = 255 ∧
    out = [].
Proof. do 3 eexists. split_and!; try reflexivity. Qed.

(** Claim C9 (file-blit failure containment) against the code.  A file
    that [Image.open] opens and whose pixel data cannot be decoded is
    not contained: only [Image.open] is inside the [try].  For a
    grey-level file the conversion [img.point] raises and the exception
    leaves [_load_image_mono_cached], so [drawXBMfile] and [drawPBMfile]
    raise.  For a bilevel file no conversion runs: the image is put in
    the cache undecoded and returned, and [pil_img.load()] in the blit
    raises, so both methods raise again. *)
Theorem undecodable_file_blit_raises :
  U8G2SimLCD.Image_open (os_at 100 (inr cut_grey)) "icon.pbm" = inr cut_grey ∧
  U8G2SimLCD.to_mono cut_grey false = None ∧
  U8G2SimLCD.drawXBMfile (os_at 100 (inr cut_grey)) "icon.pbm" 0 0 false lcd0 = None ∧
  U8G2SimLCD.drawPBMfile (os_at 100 (inr cut_grey)) "icon.pbm" 0 0 false lcd0 = None ∧
  (∃ lcd1,
     U8G2SimLCD._load_image_mono_cached (os_at 100 (inr cut_mono)) "icon.pbm"
       false lcd0 = Some (Some cut_mono, lcd1, []) ∧
     OrderedDict.contains ("/home/u/icon.pbm", Some 100, false)
       (LRUCache._d (U8G2SimLCD._bmp_cache lcd1)) = true ∧
     PIL.load cut_mono = None) ∧
  U8G2SimLCD.drawXBMfile (os_at 100 (inr cut_mono)) "icon.pbm" 0 0 false lcd0 = None ∧
  U8G2SimLCD.drawPBMfile (os_at 100 (inr cut_mono)) "icon.pbm" 0 0 false lcd0 = None.
Proof.
  split_and!; try reflexivity.
  eexists. split_and!; reflexivity.
Qed.

(** ** The live-reload loop *)

Section ReloadFacts.
Import LivePythonRenderer.




End ReloadFacts.



(** Claim C1 (reload staleness) against the code.  The file is loaded at
    time 100 and binds [draw]; it is then edited so that it no longer
    compiles.  On the tick that sees the edit, [_load] renders the exec
    error and returns with [_module_env] and [_func_name] as they were,
    so [pump] calls the old entry point right after; on every later tick
    the file is unchanged and the old entry point is called again. *)
Theorem stale_entry_point_after_failed_reload :
  LivePythonRenderer.ticks [Demo.saved false; Demo.broken; Demo.broken]
    LivePythonRenderer.init =
  [[LivePythonRenderer.CompileExec Demo.good_code; LivePythonRenderer.Call 0];
   [LivePythonRenderer.CompileExec Demo.bad_code;
    LivePythonRenderer.ShowError "exec" Demo.SyntaxError;
    LivePythonRenderer.Call 0];
   [LivePythonRenderer.Call 0]].
Proof. reflexivity. Qed.
